(** * PDF Text Extractor (PDFGUI1.py): file intake and session model

    A shallow embedding of the drag-and-drop intake path of [PDFGUI1.py]
    ([DragDropArea.dropEvent], [MainWindow.add_file], [MainWindow.clear_all])
    together with the properties of its intake/session contract.

    Modelling conventions.
    - A Python [str] is a [string]; the only case mapping the program relies
      on is that of the suffix [.pdf], which is ASCII.
    - The file system and PyPDF2 are an oracle [filesystem]: what [open],
      [PdfReader], [len(reader.pages)] and [page.extract_text()] answer for
      a path.  An exception is represented by its message [str(e)].
    - The I/O the program performs (opening and closing files, message
      boxes, accepting the drop) is returned as a list of [event]s.
    - [MainWindow] keeps the two attributes the methods mutate:
      [files_data] and [text_layout]. *)

From stdpp Require Import base list strings.
From Stdlib Require Import Ascii Arith Lia.

Local Open Scope string_scope.
Local Open Scope list_scope.

(** ** Python string operations used by the program *)

Module Str.

(** The line feed, Python's ["\n"]. *)
Definition NL : string := String (ascii_of_nat 10) EmptyString.

Definition is_upper (c : ascii) : bool :=
  ((65 <=? nat_of_ascii c) && (nat_of_ascii c <=? 90))%nat.

Definition lower_char (c : ascii) : ascii :=
  if is_upper c then ascii_of_nat (nat_of_ascii c + 32) else c.

(** [s.lower()] *)
Fixpoint lower (s : string) : string :=
  match s with
  | EmptyString => EmptyString
  | String c r => String (lower_char c) (lower r)
  end.

(** [s.endswith(suffix)] *)
Definition endswith (s suffix : string) : bool :=
  (String.length suffix <=? String.length s)%nat
  && String.eqb
       (String.substring (String.length s - String.length suffix)
                  (String.length suffix) s)
       suffix.

(** [s.split(sep)] for a one-character separator: never empty. *)
Fixpoint split (sep : ascii) (s : string) : list string :=
  match s with
  | EmptyString => [EmptyString]
  | String c r =>
      if Ascii.eqb c sep then EmptyString :: split sep r
      else match split sep r with
           | h :: t => String c h :: t
           | [] => [String c EmptyString]
           end
  end.

(** [l[-1]] on the result of a split. *)
Definition last_item (l : list string) : string := List.last l EmptyString.

End Str.

(** ** Exceptions and results *)

(** A raised [Exception], identified with its message [str(e)]. *)
Definition exn := string.

Inductive result (A : Type) : Type :=
| Ok (a : A)
| Raise (e : exn).
Arguments Ok {A} a.
Arguments Raise {A} e.

(** ** The external collaborators: the file system and PyPDF2 *)

(** [page.extract_text()] *)
Inductive page : Type :=
| PageText (s : string)
| PageRaises (e : exn).

(** [PyPDF2.PdfReader(file)] followed by [len(reader.pages)] *)
Inductive reader : Type :=
| ReaderRaises (e : exn)
| Pages (ps : list page).

(** [open(file_path, 'rb')] *)
Inductive file : Type :=
| OpenRaises (e : exn)
| Opened (rd : reader).

Definition filesystem := string -> file.

(** ** Observable effects *)

Inductive event : Type :=
| EvOpen (file_path : string)
| EvClose (file_path : string)
| EvWarning (title text : string)
| EvCritical (title text : string)
| EvAccept.

(** ** The window state *)

(** The container built for one PDF: a bold label and a read-only text box. *)
Record container : Type := Container {
  file_label : string;
  text_edit : string
}.

(** An item of a [QVBoxLayout]; [itemAt(i).widget()] is [None] for an item
    that holds no widget. *)
Inductive layout_item : Type :=
| WidgetItem (w : container)
| SpacerItem.

Record MainWindow : Type := Window {
  files_data : list (string * string);
  text_layout : list layout_item
}.

(** [MainWindow.__init__] / [initUI]: nothing stored, nothing displayed. *)
Definition init : MainWindow := {| files_data := []; text_layout := [] |}.

(** ** [MainWindow.add_file] *)

(** The [for page_num in range(len(reader.pages))] loop, with the local
    [text] as accumulator. *)
Fixpoint extract_loop (pages : list page) (text : string) : result string :=
  match pages with
  | [] => Ok text
  | PageText s :: rest => extract_loop rest (text +:+ (s +:+ Str.NL))
  | PageRaises e :: _ => Raise e
  end.

(** The [with open(file_path, 'rb') as file:] block: the value of [text] on
    normal exit or the exception that leaves the block, and the file
    operations performed.  The file is closed on both exits of the block. *)
Definition read_pdf (fs : filesystem) (file_path : string)
  : result string * list event :=
  match fs file_path with
  | OpenRaises e => (Raise e, [EvOpen file_path])
  | Opened rd =>
      (match rd with
       | ReaderRaises e => Raise e
       | Pages ps => extract_loop ps EmptyString
       end,
       [EvOpen file_path; EvClose file_path])
  end.

Definition make_container (file_path text : string) : container :=
  {| file_label := "File: " +:+ Str.last_item (Str.split "/"%char file_path);
     text_edit := text |}.

Definition add_file (fs : filesystem) (file_path : string) (self : MainWindow)
  : MainWindow * list event :=
  match read_pdf fs file_path with
  | (Ok text, evs) =>
      ({| files_data := files_data self ++ [(file_path, text)];
          text_layout :=
            text_layout self ++ [WidgetItem (make_container file_path text)] |},
       evs)
  | (Raise e, evs) =>
      (self,
       evs ++ [EvCritical "Error" ("Failed to read PDF file." +:+ Str.NL +:+ e)])
  end.

(** ** [DragDropArea.dropEvent] *)

(** The test of the list comprehension, on [url.toLocalFile()]. *)
Definition is_pdf (local_file : string) : bool :=
  Str.endswith (Str.lower local_file) ".pdf".

(** [for file_path in pdf_files: self.parent().add_file(file_path)] *)
Fixpoint add_files (fs : filesystem) (pdf_files : list string)
  (w : MainWindow) : MainWindow * list event :=
  match pdf_files with
  | [] => (w, [])
  | file_path :: rest =>
      let '(w1, evs1) := add_file fs file_path w in
      let '(w2, evs2) := add_files fs rest w1 in
      (w2, evs1 ++ evs2)
  end.

(** [urls] holds [url.toLocalFile()] of each dropped URL, in order. *)
Definition dropEvent (fs : filesystem) (urls : list string) (w : MainWindow)
  : MainWindow * list event :=
  let pdf_files := List.filter is_pdf urls in
  match pdf_files with
  | [] => (w, [EvWarning "Invalid File" "Please drop only PDF files."])
  | _ :: _ =>
      let '(w', evs) := add_files fs pdf_files w in
      (w', evs ++ [EvAccept])
  end.

(** ** [MainWindow.clear_all] *)

(** The loop over [reversed(range(self.text_layout.count()))].
    [itemAt(i)] is [None] when [i] is out of range, and [.widget()] on it
    raises; [widget.setParent(None)] takes the widget out of the layout. *)
Fixpoint clear_loop (indices : list nat) (layout : list layout_item)
  : result (list layout_item) :=
  match indices with
  | [] => Ok layout
  | i :: rest =>
      match layout !! i with
      | None => Raise "'NoneType' object has no attribute 'widget'"
      | Some (WidgetItem _) => clear_loop rest (delete i layout)
      | Some SpacerItem => clear_loop rest layout
      end
  end.

Definition clear_all (self : MainWindow) : result MainWindow :=
  match clear_loop (rev (seq 0 (length (text_layout self)))) (text_layout self) with
  | Ok layout => Ok {| files_data := []; text_layout := layout |}
  | Raise e => Raise e
  end.

(** ** The operations of a session, and the windows they can produce *)

Inductive op : Type :=
| Drop (urls : list string)
| AddFile (file_path : string)
| ClearAll.

Definition exec (fs : filesystem) (o : op) (w : MainWindow)
  : result (MainWindow * list event) :=
  match o with
  | Drop urls => Ok (dropEvent fs urls w)
  | AddFile file_path => Ok (add_file fs file_path w)
  | ClearAll =>
      match clear_all w with
      | Ok w' => Ok (w', [])
      | Raise e => Raise e
      end
  end.

(** Windows obtained from [init] by operations taken from [allowed]. *)
Inductive reachable_by (allowed : op -> Prop) (fs : filesystem)
  : MainWindow -> Prop :=
| reach_init : reachable_by allowed fs init
| reach_step o w w' evs :
    reachable_by allowed fs w ->
    allowed o ->
    exec fs o w = Ok (w', evs) ->
    reachable_by allowed fs w'.

(** Every call of every method. *)
Definition any_op (o : op) : Prop := True.

(** The calls the program makes: [add_file] is only called by [dropEvent],
    on the paths its filter kept. *)
Definition validated (o : op) : Prop :=
  match o with
  | AddFile file_path => is_pdf file_path = true
  | Drop _ | ClearAll => True
  end.

(** ** Vocabulary of the intake contract *)

(** Every page's text followed by a line feed, in page order. *)
Definition join_pages (texts : list string) : string :=
  foldr (fun t acc => (t +:+ Str.NL) +:+ acc) EmptyString texts.

(** The file opens, is parsed and every page yields its text. *)
Definition well_formed (fs : filesystem) (file_path : string)
  (texts : list string) : Prop :=
  fs file_path = Opened (Pages (PageText <$> texts)).

(** Opening, parsing or extracting some page raises [e]; the pages before
    the failing one, if any, were extracted. *)
Inductive fails (fs : filesystem) (file_path : string) (e : exn) : Prop :=
| fails_open : fs file_path = OpenRaises e -> fails fs file_path e
| fails_reader : fs file_path = Opened (ReaderRaises e) -> fails fs file_path e
| fails_page texts rest :
    fs file_path = Opened (Pages ((PageText <$> texts) ++ PageRaises e :: rest)) ->
    fails fs file_path e.

Definition corrupted (fs : filesystem) (file_path : string) : Prop :=
  forall texts, ~ well_formed fs file_path texts.

(** The text of the critical message box for exception [e]. *)
Definition failure_box (e : exn) : event :=
  EvCritical "Error" ("Failed to read PDF file." +:+ Str.NL +:+ e).

Definition no_pdf_box : event :=
  EvWarning "Invalid File" "Please drop only PDF files.".

(** Projections of an event list. *)
Definition opened (evs : list event) : list string :=
  omap (fun ev => match ev with EvOpen p => Some p | _ => None end) evs.

Definition boxes (evs : list event) : list event :=
  List.filter
    (fun ev => match ev with EvWarning _ _ | EvCritical _ _ => true | _ => false end)
    evs.

(** The widgets held by a layout. *)
Definition containers (layout : list layout_item) : list container :=
  omap (fun it => match it with WidgetItem c => Some c | SpacerItem => None end)
       layout.

Definition warnings (evs : list event) : list event :=
  List.filter
    (fun ev => match ev with EvWarning _ _ => true | _ => false end) evs.

(** The items of a layout that hold no widget. *)
Definition spacers (layout : list layout_item) : list layout_item :=
  List.filter
    (fun it => match it with SpacerItem => true | WidgetItem _ => false end)
    layout.

(** The layout item shown for a stored (path, text) entry. *)
Definition display (d : string * string) : layout_item :=
  WidgetItem (make_container (fst d) (snd d)).

(** The display mirrors the store, entry by entry. *)
Definition mirrored (w : MainWindow) : Prop :=
  text_layout w = display <$> files_data w.

(** A stored entry has a validated path and is the complete extraction of
    its file. *)
Definition intact (fs : filesystem) (d : string * string) : Prop :=
  is_pdf (fst d) = true
  /\ exists texts, well_formed fs (fst d) texts /\ snd d = join_pages texts.

(** What a successful intake stores, or nothing. *)
Definition document (fs : filesystem) (file_path : string)
  : option (string * string) :=
  match fst (read_pdf fs file_path) with
  | Ok text => Some (file_path, text)
  | Raise _ => None
  end.

(** ** [DragDropArea.dragEnterEvent] and [dragMoveEvent] *)

(** What a drag handler answers: [event.acceptProposedAction()] or
    [event.ignore()]. *)
Inductive drag_reply : Type :=
| Accepted
| Ignored.

(** [event.mimeData()]: the answer of [hasUrls()] and, for each URL of
    [urls()], its [toLocalFile()]. *)
Record mime_data : Type := Mime {
  has_urls : bool;
  mime_urls : list string
}.

(** The [for url in event.mimeData().urls()] loop: [true] when it accepts
    and returns, [false] when it runs to its end. *)
Fixpoint drag_scan (urls : list string) : bool :=
  match urls with
  | [] => false
  | url :: rest => if is_pdf url then true else drag_scan rest
  end.

Definition dragEnterEvent (m : mime_data) : drag_reply :=
  if has_urls m
  then (if drag_scan (mime_urls m) then Accepted else Ignored)
  else Ignored.

Definition dragMoveEvent (m : mime_data) : drag_reply := Accepted.

(** ** Vocabulary of the further properties *)

(** The exception an intake ends with, or nothing. *)
Definition failure (fs : filesystem) (file_path : string) : option exn :=
  match fst (read_pdf fs file_path) with
  | Ok _ => None
  | Raise e => Some e
  end.

Definition criticals (evs : list event) : list event :=
  List.filter
    (fun ev => match ev with EvCritical _ _ => true | _ => false end) evs.

Definition closed (evs : list event) : list string :=
  omap (fun ev => match ev with EvClose p => Some p | _ => None end) evs.

(** [open(file_path, 'rb')] returns a file object. *)
Definition opens (fs : filesystem) (file_path : string) : bool :=
  match fs file_path with
  | Opened _ => true
  | OpenRaises _ => false
  end.

(** The number of file objects held open after an event, given the number
    held before it. *)
Definition handle_step (fs : filesystem) (ev : event) (n : nat) : nat :=
  match ev with
  | EvOpen p => if opens fs p then S n else n
  | EvClose _ => pred n
  | _ => n
  end.

(** The number of file objects held after a run of events. *)
Fixpoint held (fs : filesystem) (evs : list event) (n : nat) : nat :=
  match evs with
  | [] => n
  | ev :: rest => held fs rest (handle_step fs ev n)
  end.

(** The largest number of file objects held at any point of a run. *)
Fixpoint peak (fs : filesystem) (evs : list event) (n : nat) : nat :=
  match evs with
  | [] => n
  | ev :: rest => Nat.max n (peak fs rest (handle_step fs ev n))
  end.

(** [c in s] *)
Fixpoint has_char (c : ascii) (s : string) : bool :=
  match s with
  | EmptyString => false
  | String c' r => Ascii.eqb c' c || has_char c r
  end.

Definition sample_drag : mime_data :=
  {| has_urls := true; mime_urls := ["notes.txt"; "bad.pdf"; "a.PDF"] |}.

(** ** A sample file system *)

Definition sample_fs : filesystem := fun file_path =>
  if String.eqb file_path "a.pdf"
  then Opened (Pages [PageText "alpha"; PageText "beta"])
  else if String.eqb file_path "b.pdf"
  then Opened (Pages [PageText "gamma"])
  else if String.eqb file_path "empty.pdf"
  then Opened (Pages [])
  else if String.eqb file_path "bad.pdf"
  then Opened (ReaderRaises "EOF marker not found")
  else if String.eqb file_path "torn.pdf"
  then Opened (Pages [PageText "first"; PageRaises "invalid stream"; PageText "third"])
  else if String.eqb file_path "notes.txt"
  then Opened (Pages [PageText "plain"])
  else OpenRaises "[Errno 2] No such file or directory".

(** * Properties *)

(** ** Strings *)

Section StringFacts.

Lemma app_cons c (s t : string) : String c s +:+ t = String c (s +:+ t).
Proof. reflexivity. Qed.

Lemma app_empty_r (s : string) : s +:+ EmptyString = s.
Proof.
  induction s as [|c s IH]; [reflexivity|].
  rewrite app_cons. now rewrite IH.
Qed.

Lemma app_assoc_str (s t u : string) : (s +:+ t) +:+ u = s +:+ (t +:+ u).
Proof.
  induction s as [|c s IH]; [reflexivity|].
  rewrite !app_cons. now rewrite IH.
Qed.

Lemma join_pages_nil : join_pages [] = EmptyString.
Proof. reflexivity. Qed.

Lemma join_pages_cons t texts :
  join_pages (t :: texts) = (t +:+ Str.NL) +:+ join_pages texts.
Proof. reflexivity. Qed.

Lemma join_pages_app ts1 ts2 :
  join_pages (ts1 ++ ts2) = join_pages ts1 +:+ join_pages ts2.
Proof.
  induction ts1 as [|t ts1 IH]; [reflexivity|].
  rewrite <- app_comm_cons, !join_pages_cons, IH.
  now rewrite !app_assoc_str.
Qed.

End StringFacts.

(** ** The extraction loop *)

Section Extraction.

Variable fs : filesystem.

Lemma extract_loop_texts texts acc :
  extract_loop (PageText <$> texts) acc = Ok (acc +:+ join_pages texts).
Proof.
  revert acc. induction texts as [|t texts IH]; intros acc.
  - cbn. now rewrite app_empty_r.
  - rewrite fmap_cons. cbn [extract_loop]. rewrite IH, join_pages_cons.
    now rewrite !app_assoc_str.
Qed.

Lemma extract_loop_raises texts e rest acc :
  extract_loop ((PageText <$> texts) ++ PageRaises e :: rest) acc = Raise e.
Proof.
  revert acc. induction texts as [|t texts IH]; intros acc; [reflexivity|].
  rewrite fmap_cons, <- app_comm_cons. cbn [extract_loop]. apply IH.
Qed.

(** A page list is either all text or has a first failing page. *)
Lemma pages_split (ps : list page) :
  (exists texts, ps = PageText <$> texts)
  \/ (exists texts e rest, ps = (PageText <$> texts) ++ PageRaises e :: rest).
Proof.
  induction ps as [|[s|e] ps IH].
  - left. now exists [].
  - destruct IH as [[texts ->]|(texts & e & rest & ->)].
    + left. now exists (s :: texts).
    + right. now exists (s :: texts), e, rest.
  - right. now exists [], e, ps.
Qed.

Lemma read_pdf_well_formed p texts :
  well_formed fs p texts ->
  read_pdf fs p = (Ok (join_pages texts), [EvOpen p; EvClose p]).
Proof.
  unfold well_formed, read_pdf. intros ->.
  now rewrite extract_loop_texts.
Qed.

Lemma read_pdf_fails p e :
  fails fs p e ->
  exists evs, read_pdf fs p = (Raise e, evs)
              /\ (evs = [EvOpen p] \/ evs = [EvOpen p; EvClose p]).
Proof.
  unfold read_pdf. intros [H|H|texts rest H]; rewrite H.
  - eexists; split; [reflexivity|]. now left.
  - eexists; split; [reflexivity|]. now right.
  - rewrite extract_loop_raises. eexists; split; [reflexivity|]. now right.
Qed.

(** Every file is either well formed or fails with some exception. *)
Lemma intake_cases p :
  (exists texts, well_formed fs p texts) \/ (exists e, fails fs p e).
Proof.
  unfold well_formed.
  destruct (fs p) as [e|[e|ps]] eqn:Hp.
  - right. exists e. now apply fails_open.
  - right. exists e. now apply fails_reader.
  - destruct (pages_split ps) as [[texts ->]|(texts & e & rest & ->)].
    + left. now exists texts.
    + right. exists e. now apply fails_page with texts rest.
Qed.

Lemma corrupted_fails p : corrupted fs p -> exists e, fails fs p e.
Proof.
  intros Hc. destruct (intake_cases p) as [[texts Hw]|He]; [|exact He].
  now destruct (Hc texts).
Qed.

Lemma fails_corrupted p e : fails fs p e -> corrupted fs p.
Proof.
  intros Hf texts Hw.
  destruct (read_pdf_fails p e Hf) as (evs & Hr & _).
  rewrite (read_pdf_well_formed p texts Hw) in Hr. discriminate.
Qed.

Lemma document_well_formed p texts :
  well_formed fs p texts -> document fs p = Some (p, join_pages texts).
Proof.
  intros Hw. unfold document. now rewrite (read_pdf_well_formed p texts Hw).
Qed.

Lemma document_fails p e : fails fs p e -> document fs p = None.
Proof.
  intros Hf. unfold document.
  destruct (read_pdf_fails p e Hf) as (evs & -> & _). reflexivity.
Qed.

Lemma document_Some p d :
  document fs p = Some d ->
  exists texts, well_formed fs p texts /\ d = (p, join_pages texts).
Proof.
  intros Hd. destruct (intake_cases p) as [[texts Hw]|[e He]].
  - exists texts. split; [exact Hw|].
    rewrite (document_well_formed p texts Hw) in Hd. congruence.
  - rewrite (document_fails p e He) in Hd. discriminate.
Qed.

End Extraction.

(** ** One intake, and a batch of intakes *)

Section Intake.

Variable fs : filesystem.

Lemma add_file_well_formed p texts w :
  well_formed fs p texts ->
  add_file fs p w =
    ({| files_data := files_data w ++ [(p, join_pages texts)];
        text_layout := text_layout w ++ [display (p, join_pages texts)] |},
     [EvOpen p; EvClose p]).
Proof.
  intros Hw. unfold add_file. now rewrite (read_pdf_well_formed fs p texts Hw).
Qed.

Lemma add_file_fails p e w :
  fails fs p e ->
  exists evs, add_file fs p w = (w, evs ++ [failure_box e])
              /\ (evs = [EvOpen p] \/ evs = [EvOpen p; EvClose p]).
Proof.
  intros Hf. destruct (read_pdf_fails fs p e Hf) as (evs & Hr & Hevs).
  exists evs. split; [|exact Hevs]. unfold add_file. now rewrite Hr.
Qed.

Lemma add_file_files_data p w :
  files_data (fst (add_file fs p w))
  = files_data w ++ option_list (document fs p).
Proof.
  destruct (intake_cases fs p) as [[texts Hw]|[e He]].
  - rewrite (add_file_well_formed p texts w Hw).
    now rewrite (document_well_formed fs p texts Hw).
  - destruct (add_file_fails p e w He) as (evs & -> & _).
    rewrite (document_fails fs p e He). cbn. now rewrite app_nil_r.
Qed.

Lemma add_file_text_layout p w :
  text_layout (fst (add_file fs p w))
  = text_layout w ++ (display <$> option_list (document fs p)).
Proof.
  destruct (intake_cases fs p) as [[texts Hw]|[e He]].
  - rewrite (add_file_well_formed p texts w Hw).
    now rewrite (document_well_formed fs p texts Hw).
  - destruct (add_file_fails p e w He) as (evs & -> & _).
    rewrite (document_fails fs p e He). cbn. now rewrite app_nil_r.
Qed.

(** [add_file] opens the path it is given, whatever its extension. *)
Lemma add_file_opened p w : opened (snd (add_file fs p w)) = [p].
Proof.
  destruct (intake_cases fs p) as [[texts Hw]|[e He]].
  - now rewrite (add_file_well_formed p texts w Hw).
  - destruct (add_file_fails p e w He) as (evs & -> & [->| ->]); reflexivity.
Qed.

Lemma add_files_cons p ps w :
  add_files fs (p :: ps) w =
    (fst (add_files fs ps (fst (add_file fs p w))),
     snd (add_file fs p w) ++ snd (add_files fs ps (fst (add_file fs p w)))).
Proof.
  cbn [add_files]. destruct (add_file fs p w) as [w1 evs1].
  cbn [fst snd]. now destruct (add_files fs ps w1) as [w2 evs2].
Qed.

Lemma add_files_files_data ps w :
  files_data (fst (add_files fs ps w))
  = files_data w ++ omap (document fs) ps.
Proof.
  revert w. induction ps as [|p ps IH]; intros w.
  - cbn. now rewrite app_nil_r.
  - rewrite add_files_cons. cbn [fst]. rewrite IH, add_file_files_data.
    rewrite <- app_assoc. f_equal. cbn [omap list_omap].
    now destruct (document fs p).
Qed.

Lemma add_files_text_layout ps w :
  text_layout (fst (add_files fs ps w))
  = text_layout w ++ (display <$> omap (document fs) ps).
Proof.
  revert w. induction ps as [|p ps IH]; intros w.
  - cbn. now rewrite app_nil_r.
  - rewrite add_files_cons. cbn [fst]. rewrite IH, add_file_text_layout.
    rewrite <- app_assoc. f_equal. cbn [omap list_omap].
    now destruct (document fs p).
Qed.

Lemma opened_app evs1 evs2 : opened (evs1 ++ evs2) = opened evs1 ++ opened evs2.
Proof. apply omap_app. Qed.

Lemma add_files_opened ps w : opened (snd (add_files fs ps w)) = ps.
Proof.
  revert w. induction ps as [|p ps IH]; intros w; [reflexivity|].
  rewrite add_files_cons. cbn [snd].
  now rewrite opened_app, add_file_opened, IH.
Qed.

Lemma add_file_no_warning p w title text :
  ~ In (EvWarning title text) (snd (add_file fs p w)).
Proof.
  destruct (intake_cases fs p) as [[texts Hw]|[e He]].
  - rewrite (add_file_well_formed p texts w Hw). cbn. intuition discriminate.
  - destruct (add_file_fails p e w He) as (evs & -> & [->| ->]);
      cbn; unfold failure_box; intuition discriminate.
Qed.

Lemma add_files_no_warning ps w title text :
  ~ In (EvWarning title text) (snd (add_files fs ps w)).
Proof.
  revert w. induction ps as [|p ps IH]; intros w; [intros []|].
  rewrite add_files_cons. cbn [snd]. rewrite in_app_iff.
  intros [H|H]; [now apply add_file_no_warning in H|now apply IH in H].
Qed.

(** The drop handler in terms of its filtered batch. *)
Lemma dropEvent_some urls w :
  List.filter is_pdf urls <> [] ->
  dropEvent fs urls w =
    (fst (add_files fs (List.filter is_pdf urls) w),
     snd (add_files fs (List.filter is_pdf urls) w) ++ [EvAccept]).
Proof.
  intros Hne. unfold dropEvent.
  destruct (List.filter is_pdf urls) as [|p ps] eqn:Hf; [congruence|].
  now destruct (add_files fs (p :: ps) w).
Qed.

Lemma dropEvent_none urls w :
  List.filter is_pdf urls = [] -> dropEvent fs urls w = (w, [no_pdf_box]).
Proof. intros Hf. unfold dropEvent. now rewrite Hf. Qed.

Lemma dropEvent_files_data urls w :
  files_data (fst (dropEvent fs urls w))
  = files_data w ++ omap (document fs) (List.filter is_pdf urls).
Proof.
  destruct (List.filter is_pdf urls) as [|p ps] eqn:Hf.
  - rewrite dropEvent_none by exact Hf. cbn. now rewrite app_nil_r.
  - rewrite dropEvent_some by (rewrite Hf; discriminate).
    cbn [fst]. now rewrite add_files_files_data, Hf.
Qed.

Lemma dropEvent_text_layout urls w :
  text_layout (fst (dropEvent fs urls w))
  = text_layout w ++ (display <$> omap (document fs) (List.filter is_pdf urls)).
Proof.
  destruct (List.filter is_pdf urls) as [|p ps] eqn:Hf.
  - rewrite dropEvent_none by exact Hf. cbn. now rewrite app_nil_r.
  - rewrite dropEvent_some by (rewrite Hf; discriminate).
    cbn [fst]. now rewrite add_files_text_layout, Hf.
Qed.

Lemma dropEvent_opened urls w :
  opened (snd (dropEvent fs urls w)) = List.filter is_pdf urls.
Proof.
  destruct (List.filter is_pdf urls) as [|p ps] eqn:Hf.
  - now rewrite dropEvent_none by exact Hf.
  - rewrite dropEvent_some by (rewrite Hf; discriminate).
    cbn [snd]. rewrite opened_app, add_files_opened, Hf. cbn.
    now rewrite app_nil_r.
Qed.

Lemma filter_idem {A} (f : A -> bool) (l : list A) :
  List.filter f (List.filter f l) = List.filter f l.
Proof.
  induction l as [|x l IH]; [reflexivity|].
  cbn. destruct (f x) eqn:Hx; [|exact IH]. cbn. now rewrite Hx, IH.
Qed.

Lemma warnings_nil evs :
  (forall title text, ~ In (EvWarning title text) evs) -> warnings evs = [].
Proof.
  induction evs as [|ev evs IH]; intros H; [reflexivity|].
  cbn. destruct ev; try (apply IH; intros t x Hin; apply (H t x); now right).
  destruct (H title text). now left.
Qed.

End Intake.

(** ** Clearing *)

Section Clearing.

Lemma rev_seq_S n : rev (seq 0 (S n)) = n :: rev (seq 0 n).
Proof. now rewrite seq_S, rev_unit. Qed.

(** Scanning the indices of a prefix downwards removes its widgets and
    leaves what follows it alone; no index is ever out of range. *)
Lemma clear_loop_prefix (front back : list layout_item) :
  clear_loop (rev (seq 0 (length front))) (front ++ back)
  = Ok (spacers front ++ back).
Proof.
  revert back. induction front as [|it front IH] using rev_ind; intros back.
  - reflexivity.
  - rewrite length_app, Nat.add_1_r, rev_seq_S. cbn [length clear_loop].
    rewrite <- app_assoc. cbn [app].
    rewrite list_lookup_middle by reflexivity.
    unfold spacers. rewrite List.filter_app. fold (spacers front).
    destruct it as [c|].
    + rewrite delete_middle, IH. cbn. now rewrite app_nil_r.
    + rewrite IH. cbn. now rewrite <- app_assoc.
Qed.

Lemma clear_loop_all (layout : list layout_item) :
  clear_loop (rev (seq 0 (length layout))) layout = Ok (spacers layout).
Proof.
  rewrite <- (app_nil_r layout) at 2.
  now rewrite clear_loop_prefix, app_nil_r.
Qed.

Lemma clear_all_spec w :
  clear_all w = Ok {| files_data := []; text_layout := spacers (text_layout w) |}.
Proof. unfold clear_all. now rewrite clear_loop_all. Qed.

Lemma spacers_idem layout : spacers (spacers layout) = spacers layout.
Proof.
  unfold spacers.
  induction layout as [|[c|] layout IH]; cbn; [reflexivity|exact IH|].
  now f_equal.
Qed.

Lemma containers_spacers layout : containers (spacers layout) = [].
Proof. induction layout as [|[c|] layout IH]; cbn; auto. Qed.

Lemma spacers_no_widget layout : containers layout = [] -> spacers layout = layout.
Proof.
  unfold spacers.
  induction layout as [|[c|] layout IH]; cbn; intros H;
    [reflexivity|discriminate|].
  f_equal. now apply IH.
Qed.

Lemma spacers_display ds : spacers (display <$> ds) = [].
Proof. induction ds as [|d ds IH]; cbn; auto. Qed.

Lemma containers_display ds :
  containers (display <$> ds)
  = (fun d => make_container (fst d) (snd d)) <$> ds.
Proof. induction ds as [|d ds IH]; cbn; [reflexivity|]. now f_equal. Qed.

End Clearing.

(** ** What holds of every window the program can reach *)

Section Reachable.

Variable fs : filesystem.

Lemma mirrored_init : mirrored init.
Proof. reflexivity. Qed.

Lemma mirrored_exec o w w' evs :
  mirrored w -> exec fs o w = Ok (w', evs) -> mirrored w'.
Proof.
  unfold mirrored. intros Hm He. destruct o as [urls|p|]; cbn in He.
  - injection He as Hd. apply (f_equal fst) in Hd. cbn in Hd. subst w'.
    rewrite dropEvent_text_layout, dropEvent_files_data, Hm.
    now rewrite fmap_app.
  - assert (w' = fst (add_file fs p w)) as -> by (injection He as ->; reflexivity).
    rewrite add_file_text_layout, add_file_files_data, Hm.
    now rewrite fmap_app.
  - rewrite clear_all_spec in He. injection He as <- _. cbn.
    rewrite Hm. apply spacers_display.
Qed.

Lemma containers_app l1 l2 :
  containers (l1 ++ l2) = containers l1 ++ containers l2.
Proof. apply omap_app. Qed.

(** The equality of the two counts is kept by every call, from any window:
    a successful intake adds one container and one entry, a failed one adds
    neither, and a clear removes all of both. *)
Lemma counts_exec o w w' evs :
  exec fs o w = Ok (w', evs) ->
  length (containers (text_layout w)) = length (files_data w) ->
  length (containers (text_layout w')) = length (files_data w').
Proof.
  intros He Hc. destruct o as [urls|p|]; cbn in He.
  - assert (w' = fst (dropEvent fs urls w)) as -> by (injection He as ->; reflexivity).
    rewrite dropEvent_text_layout, dropEvent_files_data.
    rewrite containers_app, containers_display, !length_app, length_fmap.
    now rewrite Hc.
  - assert (w' = fst (add_file fs p w)) as -> by (injection He as ->; reflexivity).
    rewrite add_file_text_layout, add_file_files_data.
    rewrite containers_app, containers_display, !length_app, length_fmap.
    now rewrite Hc.
  - rewrite clear_all_spec in He. injection He as <- _. cbn.
    now rewrite containers_spacers.
Qed.

Lemma reachable_mirrored allowed w :
  reachable_by allowed fs w -> mirrored w.
Proof.
  induction 1 as [|o w w' evs _ IH _ He]; [apply mirrored_init|].
  exact (mirrored_exec o w w' evs IH He).
Qed.

Lemma intact_document p d :
  is_pdf p = true -> document fs p = Some d -> intact fs d.
Proof.
  intros Hp Hd. destruct (document_Some fs p d Hd) as (texts & Hw & ->).
  split; [exact Hp|]. now exists texts.
Qed.

Lemma intact_batch ps :
  Forall (fun p => is_pdf p = true) ps -> Forall (intact fs) (omap (document fs) ps).
Proof.
  induction 1 as [|p ps Hp _ IH]; [constructor|].
  cbn [omap list_omap]. destruct (document fs p) as [d|] eqn:Hd; [|exact IH].
  constructor; [now apply intact_document with p|exact IH].
Qed.

Lemma filter_is_pdf urls :
  Forall (fun p => is_pdf p = true) (List.filter is_pdf urls).
Proof.
  apply List.Forall_forall. intros p Hin.
  now apply List.filter_In in Hin as [_ Hp].
Qed.

Lemma intact_exec o w w' evs :
  validated o ->
  Forall (intact fs) (files_data w) ->
  exec fs o w = Ok (w', evs) ->
  Forall (intact fs) (files_data w').
Proof.
  intros Hv Hi He. destruct o as [urls|p|]; cbn in He, Hv.
  - assert (w' = fst (dropEvent fs urls w)) as -> by (injection He as ->; reflexivity).
    rewrite dropEvent_files_data. apply Forall_app. split; [exact Hi|].
    apply intact_batch, filter_is_pdf.
  - assert (w' = fst (add_file fs p w)) as -> by (injection He as ->; reflexivity).
    rewrite add_file_files_data. apply Forall_app. split; [exact Hi|].
    destruct (document fs p) as [d|] eqn:Hd; [|constructor].
    constructor; [now apply intact_document with p|constructor].
  - rewrite clear_all_spec in He. injection He as <- _. constructor.
Qed.

End Reachable.

(** ** The extension test *)

Section Extension.

Lemma length_app_str (a b : string) :
  String.length (a +:+ b) = String.length a + String.length b.
Proof.
  induction a as [|c a IH]; [reflexivity|].
  rewrite app_cons. cbn [String.length]. now rewrite IH.
Qed.

Lemma substring_whole (b : string) : String.substring 0 (String.length b) b = b.
Proof. induction b as [|c b IH]; cbn; [reflexivity|]. now rewrite IH. Qed.

Lemma substring_after (a b : string) :
  String.substring (String.length a) (String.length b) (a +:+ b) = b.
Proof.
  induction a as [|c a IH]; [apply substring_whole|].
  rewrite app_cons. cbn [String.length String.substring]. exact IH.
Qed.

(** A string cut after its first [n] characters. *)
Lemma cut_at n (s : string) :
  n <= String.length s ->
  exists a b, s = a +:+ b /\ String.length a = n.
Proof.
  revert s. induction n as [|n IH]; intros s Hn.
  - now exists EmptyString, s.
  - destruct s as [|c s]; cbn in Hn; [lia|].
    destruct (IH s) as (a & b & -> & Ha); [lia|].
    exists (String c a), b. split; [reflexivity|]. cbn. now rewrite Ha.
Qed.

Lemma app_inv_length (a b a' b' : string) :
  String.length a = String.length a' ->
  a +:+ b = a' +:+ b' -> a = a' /\ b = b'.
Proof.
  revert a'. induction a as [|c a IH]; intros [|c' a'] Hl He;
    try discriminate.
  - now split.
  - rewrite !app_cons in He. injection He as -> He. injection Hl as Hl.
    destruct (IH a' Hl He) as [-> ->]. now split.
Qed.

Lemma endswith_spec (s suffix : string) :
  Str.endswith s suffix = true <-> exists a, s = a +:+ suffix.
Proof.
  unfold Str.endswith. rewrite andb_true_iff, Nat.leb_le, String.eqb_eq. split.
  - intros [Hle Hs].
    destruct (cut_at (String.length s - String.length suffix) s) as (a & b & -> & Ha);
      [lia|].
    exists a. f_equal. rewrite <- Hs, <- Ha.
    rewrite length_app_str in Hle, Ha.
    replace (String.length suffix) with (String.length b) by lia.
    symmetry. apply substring_after.
  - intros [a ->]. rewrite length_app_str. split; [lia|].
    replace (String.length a + String.length suffix - String.length suffix)
      with (String.length a) by lia.
    apply substring_after.
Qed.

Lemma lower_app (a b : string) :
  Str.lower (a +:+ b) = Str.lower a +:+ Str.lower b.
Proof.
  induction a as [|c a IH]; [reflexivity|].
  rewrite app_cons. cbn [Str.lower]. now rewrite IH, app_cons.
Qed.

Lemma length_lower (s : string) : String.length (Str.lower s) = String.length s.
Proof. induction s as [|c s IH]; cbn; [reflexivity|]. now rewrite IH. Qed.

(** [is_pdf] holds exactly of the paths that end in [.pdf] in some mix of
    upper and lower case. *)
Lemma is_pdf_spec (p : string) :
  is_pdf p = true <-> exists stem ext, p = stem +:+ ext /\ Str.lower ext = ".pdf".
Proof.
  unfold is_pdf. rewrite endswith_spec. split.
  - intros [a Ha].
    destruct (cut_at (String.length a) p) as (stem & ext & -> & Hl).
    { rewrite <- (length_lower p), Ha, length_app_str. lia. }
    exists stem, ext. split; [reflexivity|].
    rewrite lower_app in Ha.
    apply app_inv_length in Ha as [_ Ha]; [exact Ha|].
    now rewrite length_lower.
  - intros (stem & ext & -> & He). exists (Str.lower stem).
    now rewrite lower_app, He.
Qed.

End Extension.

(** * The intake and session contract *)

(** C1.  For a well-formed PDF with N pages, [add_file] stores for the path
    the text made of each page's extracted text, in page order from page 0
    to page N-1, each followed by one line feed; in particular the text of
    the last page is followed by a trailing line feed.  The same text is
    put in the displayed container. *)
Theorem add_file_joins_pages (fs : filesystem) (p : string)
  (texts : list string) (w : MainWindow) :
  well_formed fs p texts ->
  add_file fs p w =
    ({| files_data := files_data w ++ [(p, join_pages texts)];
        text_layout := text_layout w ++ [display (p, join_pages texts)] |},
     [EvOpen p; EvClose p])
  /\ (forall front t, texts = front ++ [t] ->
        join_pages texts = join_pages front +:+ (t +:+ Str.NL)).
Proof.
  intros Hw. split; [now apply add_file_well_formed|].
  intros front t ->. rewrite join_pages_app, join_pages_cons, join_pages_nil.
  now rewrite app_empty_r.
Qed.

Lemma add_file_joins_pages_witness :
  well_formed sample_fs "a.pdf" ["alpha"; "beta"]
  /\ files_data (fst (add_file sample_fs "a.pdf" init))
     = [("a.pdf", "alpha" +:+ Str.NL +:+ "beta" +:+ Str.NL)].
Proof.
  split; [reflexivity|].
  destruct (add_file_joins_pages sample_fs "a.pdf" ["alpha"; "beta"] init)
    as [-> _]; reflexivity.
Defined.

(** C8.  For a well-formed PDF with zero pages, [add_file] succeeds (no
    message box) and the stored and displayed text is the empty string. *)
Theorem add_file_zero_pages (fs : filesystem) (p : string) (w : MainWindow) :
  well_formed fs p [] ->
  add_file fs p w =
    ({| files_data := files_data w ++ [(p, EmptyString)];
        text_layout := text_layout w ++ [display (p, EmptyString)] |},
     [EvOpen p; EvClose p]).
Proof. intros Hw. now rewrite (add_file_well_formed fs p [] w Hw). Qed.

Lemma add_file_zero_pages_witness :
  well_formed sample_fs "empty.pdf" []
  /\ files_data (fst (add_file sample_fs "empty.pdf" init))
     = [("empty.pdf", EmptyString)].
Proof.
  split; [reflexivity|].
  now rewrite (add_file_zero_pages sample_fs "empty.pdf" init).
Defined.

(** C3.  For a corrupted file with a [.pdf] extension (opening, parsing or
    the extraction of some page raises), the intake reports the failure in
    one critical message box that carries the exception's message, and the
    window (stored entries and displayed containers) is exactly what it was
    before the call: nothing partial is stored.  This holds of [add_file]
    and of the drop of that single path. *)
Theorem corrupted_intake_is_atomic (fs : filesystem) (p : string)
  (w : MainWindow) :
  is_pdf p = true ->
  corrupted fs p ->
  exists e evs,
    fails fs p e
    /\ boxes evs = []
    /\ add_file fs p w = (w, evs ++ [failure_box e])
    /\ dropEvent fs [p] w = (w, evs ++ [failure_box e; EvAccept]).
Proof.
  intros Hp Hc. destruct (corrupted_fails fs p Hc) as [e He].
  destruct (add_file_fails fs p e w He) as (evs & Ha & Hevs).
  exists e, evs. repeat split; [exact He| |exact Ha|].
  - now destruct Hevs as [->| ->].
  - unfold dropEvent. cbn [List.filter]. rewrite Hp. cbn [add_files].
    rewrite Ha. now rewrite app_nil_r, <- app_assoc.
Qed.

Lemma corrupted_intake_is_atomic_witness :
  is_pdf "torn.pdf" = true
  /\ corrupted sample_fs "torn.pdf"
  /\ fst (add_file sample_fs "torn.pdf" init) = init.
Proof.
  assert (Hc : corrupted sample_fs "torn.pdf").
  { intros [|t1 [|t2 texts]] H; unfold well_formed in H; cbn in H;
      discriminate. }
  split; [reflexivity|]. split; [exact Hc|].
  destruct (corrupted_intake_is_atomic sample_fs "torn.pdf" init eq_refl Hc)
    as (e & evs & _ & _ & -> & _).
  reflexivity.
Defined.

(** C2.  A dropped path that does not end in [.pdf] (in any letter case) is
    rejected before any read: the drop handler never opens it and stores
    nothing for it, and dropped on its own it only produces the warning.
    The test is made by [dropEvent], the only caller of [add_file]. *)
Theorem non_pdf_never_opened (fs : filesystem) (urls : list string)
  (w : MainWindow) (p : string) :
  is_pdf p = false ->
  ~ In p (opened (snd (dropEvent fs urls w)))
  /\ (forall text, In (p, text) (files_data (fst (dropEvent fs urls w))) ->
                   In (p, text) (files_data w))
  /\ dropEvent fs [p] w = (w, [no_pdf_box]).
Proof.
  intros Hp. repeat split.
  - rewrite dropEvent_opened. intros Hin.
    apply List.filter_In in Hin as [_ Hin]. congruence.
  - intros text. rewrite dropEvent_files_data, in_app_iff.
    intros [Hin|Hin]; [exact Hin|].
    apply list_elem_of_In, list_elem_of_omap in Hin as (q & Hq & Hd).
    apply document_Some in Hd as (texts & _ & Hd). injection Hd as <- _.
    apply list_elem_of_In, List.filter_In in Hq as [_ Hq]. congruence.
  - apply dropEvent_none. cbn. now rewrite Hp.
Qed.

Lemma non_pdf_never_opened_witness :
  is_pdf "notes.txt" = false
  /\ ~ In "notes.txt"
        (opened (snd (dropEvent sample_fs ["a.pdf"; "notes.txt"] init))).
Proof.
  split; [reflexivity|].
  apply (non_pdf_never_opened sample_fs ["a.pdf"; "notes.txt"] init "notes.txt").
  reflexivity.
Defined.

(** C4.  In every window reachable by drops, clears and the calls of
    [add_file] the program makes (on paths that passed the extension
    test), each stored entry has a path that passes the case-insensitive
    [.pdf] test and a text that is the complete extraction of a file whose
    opening, parsing and every page raised nothing: no partially extracted
    entry is ever stored. *)
Theorem stored_entries_are_intact (fs : filesystem) (w : MainWindow) :
  reachable_by validated fs w -> Forall (intact fs) (files_data w).
Proof.
  induction 1 as [|o w w' evs _ IH Hv He]; [constructor|].
  exact (intact_exec fs o w w' evs Hv IH He).
Qed.

Lemma stored_entries_are_intact_witness :
  reachable_by validated sample_fs
    (fst (dropEvent sample_fs ["a.pdf"; "notes.txt"; "torn.pdf"] init))
  /\ Forall (intact sample_fs)
       (files_data (fst (dropEvent sample_fs ["a.pdf"; "notes.txt"; "torn.pdf"] init))).
Proof.
  assert (Hr : reachable_by validated sample_fs
                 (fst (dropEvent sample_fs ["a.pdf"; "notes.txt"; "torn.pdf"] init))).
  { apply reach_step
      with (o := Drop ["a.pdf"; "notes.txt"; "torn.pdf"]) (w := init)
           (evs := snd (dropEvent sample_fs ["a.pdf"; "notes.txt"; "torn.pdf"] init)).
    - apply reach_init.
    - exact I.
    - reflexivity. }
  split; [exact Hr|].
  exact (stored_entries_are_intact sample_fs _ Hr).
Defined.

(** C5.  Dropping three PDF paths of which the first and third are well
    formed and the second is corrupt stores exactly two new entries, for the
    first and the third path in that order, and shows exactly one message
    box, the failure of the second path, raised after the first file was
    read and before the third is opened: the failure does not stop the
    batch. *)
Theorem batch_isolates_failure (fs : filesystem) (pa pbad pb : string)
  (ta tb : list string) (e : exn) (w : MainWindow) :
  is_pdf pa = true -> is_pdf pbad = true -> is_pdf pb = true ->
  well_formed fs pa ta -> fails fs pbad e -> well_formed fs pb tb ->
  files_data (fst (dropEvent fs [pa; pbad; pb] w))
  = files_data w ++ [(pa, join_pages ta); (pb, join_pages tb)]
  /\ boxes (snd (dropEvent fs [pa; pbad; pb] w)) = [failure_box e]
  /\ exists evs_bad,
       (evs_bad = [EvOpen pbad] \/ evs_bad = [EvOpen pbad; EvClose pbad])
       /\ snd (dropEvent fs [pa; pbad; pb] w)
          = [EvOpen pa; EvClose pa] ++ evs_bad ++ [failure_box e]
            ++ [EvOpen pb; EvClose pb; EvAccept].
Proof.
  intros Ha Hbad Hb Hwa Hf Hwb.
  assert (Hfilter : List.filter is_pdf [pa; pbad; pb] = [pa; pbad; pb]).
  { cbn. now rewrite Ha, Hbad, Hb. }
  assert (Hev : exists evs_bad,
             (evs_bad = [EvOpen pbad] \/ evs_bad = [EvOpen pbad; EvClose pbad])
             /\ snd (dropEvent fs [pa; pbad; pb] w)
                = [EvOpen pa; EvClose pa] ++ evs_bad ++ [failure_box e]
                  ++ [EvOpen pb; EvClose pb; EvAccept]).
  { rewrite dropEvent_some by (rewrite Hfilter; discriminate).
    rewrite Hfilter. cbn [snd]. rewrite !add_files_cons. cbn [fst snd add_files].
    rewrite (add_file_well_formed fs pa ta w Hwa). cbn [fst snd].
    destruct (add_file_fails fs pbad e
                {| files_data := files_data w ++ [(pa, join_pages ta)];
                   text_layout := text_layout w ++ [display (pa, join_pages ta)] |}
                Hf) as (evs_bad & -> & Hevs).
    cbn [fst snd]. rewrite (add_file_well_formed fs pb tb _ Hwb). cbn [fst snd].
    exists evs_bad. split; [exact Hevs|].
    rewrite app_nil_r, <- !app_assoc. reflexivity. }
  split; [|split; [|exact Hev]].
  - rewrite dropEvent_files_data, Hfilter. cbn [omap list_omap].
    rewrite (document_well_formed fs pa ta Hwa), (document_fails fs pbad e Hf),
      (document_well_formed fs pb tb Hwb).
    reflexivity.
  - destruct Hev as (evs_bad & [->| ->] & ->); reflexivity.
Qed.

Lemma batch_isolates_failure_witness :
  (is_pdf "a.pdf" = true /\ is_pdf "bad.pdf" = true /\ is_pdf "b.pdf" = true)
  /\ well_formed sample_fs "a.pdf" ["alpha"; "beta"]
  /\ fails sample_fs "bad.pdf" "EOF marker not found"
  /\ well_formed sample_fs "b.pdf" ["gamma"]
  /\ files_data (fst (dropEvent sample_fs ["a.pdf"; "bad.pdf"; "b.pdf"] init))
     = [("a.pdf", join_pages ["alpha"; "beta"]); ("b.pdf", join_pages ["gamma"])].
Proof.
  assert (Hf : fails sample_fs "bad.pdf" "EOF marker not found")
    by (apply fails_reader; reflexivity).
  split; [repeat split|]. split; [reflexivity|]. split; [exact Hf|].
  split; [reflexivity|].
  exact (proj1 (batch_isolates_failure sample_fs "a.pdf" "bad.pdf" "b.pdf"
                  ["alpha"; "beta"] ["gamma"] "EOF marker not found" init
                  eq_refl eq_refl eq_refl eq_refl Hf eq_refl)).
Defined.

(** C6.  For every window, [clear_all] raises nothing and leaves no stored
    entry and no displayed container; clearing again changes nothing
    (idempotence), and clearing a window that stores and displays nothing
    returns it unchanged. *)
Theorem clear_all_empties (w : MainWindow) :
  exists w',
    clear_all w = Ok w'
    /\ files_data w' = []
    /\ containers (text_layout w') = []
    /\ clear_all w' = Ok w'
    /\ (files_data w = [] -> containers (text_layout w) = [] -> w' = w).
Proof.
  exists {| files_data := []; text_layout := spacers (text_layout w) |}.
  split; [apply clear_all_spec|]. split; [reflexivity|].
  split; [apply containers_spacers|]. split.
  - rewrite clear_all_spec. cbn. now rewrite spacers_idem.
  - intros Hd Hc. destruct w as [fd tl]. cbn in *. subst fd.
    now rewrite spacers_no_widget.
Qed.

Lemma clear_all_empties_witness :
  clear_all init = Ok init
  /\ exists w',
       clear_all (fst (dropEvent sample_fs ["a.pdf"; "b.pdf"] init)) = Ok w'
       /\ files_data w' = [].
Proof.
  split.
  - destruct (clear_all_empties init) as (w' & -> & _ & _ & _ & Hnoop).
    f_equal. apply Hnoop; reflexivity.
  - destruct (clear_all_empties (fst (dropEvent sample_fs ["a.pdf"; "b.pdf"] init)))
      as (w' & Hc & Hd & _).
    exists w'. split; [exact Hc|exact Hd].
Defined.

(** C7.  For every dropped batch, the paths processed are exactly the ones
    that end in [.pdf] (case-insensitively), in their order: the others have
    no effect whatsoever on the window or on the events.  When the batch
    holds no PDF path the handler shows exactly one warning, processes
    nothing and leaves the window unchanged; otherwise it shows no
    warning. *)
Theorem drop_filters_and_warns (fs : filesystem) (urls : list string)
  (w : MainWindow) :
  opened (snd (dropEvent fs urls w)) = List.filter is_pdf urls
  /\ dropEvent fs urls w = dropEvent fs (List.filter is_pdf urls) w
  /\ match List.filter is_pdf urls with
     | [] => dropEvent fs urls w = (w, [no_pdf_box])
     | _ :: _ => warnings (snd (dropEvent fs urls w)) = []
     end.
Proof.
  split; [apply dropEvent_opened|]. split.
  - unfold dropEvent. now rewrite filter_idem.
  - destruct (List.filter is_pdf urls) as [|p ps] eqn:Hf.
    + now apply dropEvent_none.
    + rewrite dropEvent_some by (rewrite Hf; discriminate). cbn [snd].
      unfold warnings. rewrite List.filter_app. cbn. rewrite app_nil_r.
      apply warnings_nil. intros title text. apply add_files_no_warning.
Qed.

(** C9.  A successful intake appends its entry at the end of [files_data]
    whatever the list already holds: taking the same path in twice gives
    two entries, and a sequence of successful intakes is stored in the
    order of the intakes. *)
Theorem append_keeps_order_and_duplicates (fs : filesystem) (p : string)
  (texts : list string) (ps : list string) (tss : list (list string))
  (w : MainWindow) :
  well_formed fs p texts ->
  Forall2 (well_formed fs) ps tss ->
  files_data (fst (add_file fs p w)) = files_data w ++ [(p, join_pages texts)]
  /\ files_data (fst (add_file fs p (fst (add_file fs p w))))
     = files_data w ++ [(p, join_pages texts); (p, join_pages texts)]
  /\ files_data (fst (add_files fs ps w))
     = files_data w ++ zip ps (join_pages <$> tss).
Proof.
  intros Hw Hall. split; [|split].
  - now rewrite (add_file_well_formed fs p texts w Hw).
  - rewrite !(add_file_well_formed fs p texts _ Hw). cbn.
    now rewrite <- app_assoc.
  - rewrite add_files_files_data. f_equal.
    induction Hall as [|q ts qs tss' Hq _ IH]; [reflexivity|].
    cbn [omap list_omap]. rewrite (document_well_formed fs q ts Hq).
    cbn. now rewrite IH.
Qed.

Lemma append_keeps_order_and_duplicates_witness :
  well_formed sample_fs "a.pdf" ["alpha"; "beta"]
  /\ Forall2 (well_formed sample_fs) ["b.pdf"; "a.pdf"; "b.pdf"]
       [["gamma"]; ["alpha"; "beta"]; ["gamma"]]
  /\ files_data (fst (add_file sample_fs "a.pdf" (fst (add_file sample_fs "a.pdf" init))))
     = [("a.pdf", join_pages ["alpha"; "beta"]);
        ("a.pdf", join_pages ["alpha"; "beta"])].
Proof.
  assert (Hall : Forall2 (well_formed sample_fs) ["b.pdf"; "a.pdf"; "b.pdf"]
                   [["gamma"]; ["alpha"; "beta"]; ["gamma"]])
    by (repeat constructor).
  split; [reflexivity|]. split; [exact Hall|].
  exact (proj1 (proj2 (append_keeps_order_and_duplicates sample_fs "a.pdf"
                         ["alpha"; "beta"] _ _ init eq_refl Hall))).
Defined.

(** C10.  In every window reachable by drops, calls of [add_file] and
    clears, the layout holds exactly one container per stored entry, in the
    same order and showing that entry's text; in particular the number of
    containers equals the number of entries of [files_data]. *)
Theorem display_matches_store (fs : filesystem) (w : MainWindow) :
  reachable_by any_op fs w ->
  length (containers (text_layout w)) = length (files_data w)
  /\ text_layout w = display <$> files_data w.
Proof.
  intros Hr. apply reachable_mirrored in Hr. split; [|exact Hr].
  rewrite Hr, containers_display. apply length_fmap.
Qed.

Lemma display_matches_store_witness :
  reachable_by any_op sample_fs
    (fst (add_file sample_fs "notes.txt"
            (fst (dropEvent sample_fs ["a.pdf"; "bad.pdf"] init))))
  /\ length (containers (text_layout
       (fst (add_file sample_fs "notes.txt"
               (fst (dropEvent sample_fs ["a.pdf"; "bad.pdf"] init))))))
     = 2.
Proof.
  assert (Hr : reachable_by any_op sample_fs
                 (fst (add_file sample_fs "notes.txt"
                         (fst (dropEvent sample_fs ["a.pdf"; "bad.pdf"] init))))).
  { apply reach_step
      with (o := AddFile "notes.txt")
           (w := fst (dropEvent sample_fs ["a.pdf"; "bad.pdf"] init))
           (evs := [EvOpen "notes.txt"; EvClose "notes.txt"]);
      [|exact I|reflexivity].
    apply reach_step
      with (o := Drop ["a.pdf"; "bad.pdf"]) (w := init)
           (evs := snd (dropEvent sample_fs ["a.pdf"; "bad.pdf"] init));
      [apply reach_init|exact I|reflexivity]. }
  split; [exact Hr|].
  rewrite (proj1 (display_matches_store sample_fs _ Hr)). reflexivity.
Defined.

(** * Further properties of the handlers *)

(** ** Dragging and dropping *)

Section Dragging.

Variable fs : filesystem.

Lemma drag_scan_spec urls :
  drag_scan urls = true <-> exists p, In p urls /\ is_pdf p = true.
Proof.
  induction urls as [|u urls IH]; cbn.
  - split; [discriminate|]. now intros (p & [] & _).
  - destruct (is_pdf u) eqn:Hu.
    + split; [|reflexivity]. intros _. exists u. split; [now left|exact Hu].
    + rewrite IH. split.
      * intros (p & Hin & Hp). exists p. split; [now right|exact Hp].
      * intros (p & [<-|Hin] & Hp); [congruence|]. now exists p.
Qed.

Lemma filter_nonempty_iff urls :
  List.filter is_pdf urls <> [] <-> exists p, In p urls /\ is_pdf p = true.
Proof.
  split.
  - destruct (List.filter is_pdf urls) as [|p ps] eqn:Hf; [congruence|].
    intros _. exists p. apply List.filter_In. rewrite Hf. now left.
  - intros (p & Hp) Hf. apply List.filter_In in Hp. now rewrite Hf in Hp.
Qed.

Lemma criticals_app evs1 evs2 :
  criticals (evs1 ++ evs2) = criticals evs1 ++ criticals evs2.
Proof. apply List.filter_app. Qed.

Lemma warnings_app evs1 evs2 :
  warnings (evs1 ++ evs2) = warnings evs1 ++ warnings evs2.
Proof. apply List.filter_app. Qed.

Lemma add_files_warnings ps w : warnings (snd (add_files fs ps w)) = [].
Proof. apply warnings_nil. intros title text. apply add_files_no_warning. Qed.

Lemma add_file_no_accept p w : ~ In EvAccept (snd (add_file fs p w)).
Proof.
  destruct (intake_cases fs p) as [[texts Hw]|[e He]].
  - rewrite (add_file_well_formed fs p texts w Hw). cbn. intuition discriminate.
  - destruct (add_file_fails fs p e w He) as (evs & -> & [->| ->]);
      cbn; unfold failure_box; intuition discriminate.
Qed.

Lemma add_files_no_accept ps w : ~ In EvAccept (snd (add_files fs ps w)).
Proof.
  revert w. induction ps as [|p ps IH]; intros w; [intros []|].
  rewrite add_files_cons. cbn [snd]. rewrite in_app_iff.
  intros [H|H]; [now apply add_file_no_accept in H|now apply IH in H].
Qed.

End Dragging.

(** X1.  [dragEnterEvent] accepts the drag exactly when the mime data has
    URLs and at least one of them, at any position, is a local file whose
    name ends in [.pdf] in some letter case; otherwise it ignores it. *)
Theorem drag_enter_accepts_iff (m : mime_data) :
  dragEnterEvent m = Accepted
  <-> has_urls m = true
      /\ exists p, In p (mime_urls m) /\ is_pdf p = true.
Proof.
  unfold dragEnterEvent. rewrite <- drag_scan_spec.
  destruct (has_urls m), (drag_scan (mime_urls m)); intuition discriminate.
Qed.

(** X2.  A drag that [dragEnterEvent] accepted is never answered by the
    "Invalid File" warning when it is dropped: [dropEvent] opens at least
    one file and ends by accepting the drop. *)
Theorem accepted_drag_drops_without_warning (fs : filesystem)
  (m : mime_data) (w : MainWindow) :
  dragEnterEvent m = Accepted ->
  warnings (snd (dropEvent fs (mime_urls m) w)) = []
  /\ opened (snd (dropEvent fs (mime_urls m) w)) <> []
  /\ exists evs, snd (dropEvent fs (mime_urls m) w) = evs ++ [EvAccept].
Proof.
  intros Hd. apply drag_enter_accepts_iff in Hd as [_ Hp].
  apply filter_nonempty_iff in Hp.
  rewrite dropEvent_opened. split; [|split; [exact Hp|]].
  - rewrite dropEvent_some by exact Hp. cbn [snd].
    rewrite warnings_app, add_files_warnings. reflexivity.
  - rewrite dropEvent_some by exact Hp. cbn [snd]. eauto.
Qed.

Lemma accepted_drag_drops_without_warning_witness :
  dragEnterEvent sample_drag = Accepted
  /\ warnings (snd (dropEvent sample_fs (mime_urls sample_drag) init)) = [].
Proof.
  split; [reflexivity|].
  exact (proj1 (accepted_drag_drops_without_warning sample_fs sample_drag init
                  eq_refl)).
Defined.

(** X3.  [dropEvent] accepts the drop exactly when the batch holds a PDF
    path, whether or not any of the files could be read; the acceptance is
    then the last thing it does.  A batch without PDF path is not
    accepted. *)
Theorem drop_accepts_iff_some_pdf (fs : filesystem) (urls : list string)
  (w : MainWindow) :
  (In EvAccept (snd (dropEvent fs urls w))
   <-> exists p, In p urls /\ is_pdf p = true)
  /\ (In EvAccept (snd (dropEvent fs urls w))
      <-> exists evs, snd (dropEvent fs urls w) = evs ++ [EvAccept]
                      /\ ~ In EvAccept evs).
Proof.
  rewrite <- filter_nonempty_iff.
  destruct (List.filter is_pdf urls) as [|p ps] eqn:Hf.
  - rewrite (dropEvent_none fs urls w Hf). cbn. split; split.
    + intros [H|[]]. discriminate H.
    + congruence.
    + intros [H|[]]. discriminate H.
    + intros (evs & He & _). destruct evs as [|ev [|ev' evs]]; discriminate He.
  - assert (Hne : List.filter is_pdf urls <> []) by (rewrite Hf; discriminate).
    rewrite (dropEvent_some fs urls w Hne). cbn [snd]. rewrite Hf.
    split; split.
    + discriminate.
    + intros _. apply in_app_iff. right. now left.
    + intros _. eexists. split; [reflexivity|]. apply add_files_no_accept.
    + intros _. apply in_app_iff. right. now left.
Qed.

(** ** Outcomes of a batch *)

Section Outcomes.

Variable fs : filesystem.

Lemma add_file_criticals p w :
  criticals (snd (add_file fs p w)) = failure_box <$> option_list (failure fs p).
Proof.
  unfold add_file, failure, read_pdf.
  destruct (fs p) as [e|[e|ps]]; cbn; try reflexivity.
  now destruct (extract_loop ps EmptyString).
Qed.

Lemma add_files_criticals ps w :
  criticals (snd (add_files fs ps w)) = failure_box <$> omap (failure fs) ps.
Proof.
  revert w. induction ps as [|p ps IH]; intros w; [reflexivity|].
  rewrite add_files_cons. cbn [snd].
  rewrite criticals_app, add_file_criticals, IH. cbn [omap list_omap].
  now destruct (failure fs p).
Qed.

(** An intake ends in exactly one of the two ways. *)
Lemma one_outcome ps :
  length (omap (document fs) ps) + length (omap (failure fs) ps) = length ps.
Proof.
  induction ps as [|p ps IH]; [reflexivity|].
  cbn [omap list_omap length]. unfold document at 1, failure at 1.
  destruct (fst (read_pdf fs p)); cbn [length]; lia.
Qed.

Lemma failure_Some p e : failure fs p = Some e <-> fails fs p e.
Proof.
  split.
  - intros Hf. destruct (intake_cases fs p) as [[texts Hw]|[e' He]].
    + unfold failure in Hf. rewrite (read_pdf_well_formed fs p texts Hw) in Hf.
      discriminate.
    + assert (failure fs p = Some e') as Hf'.
      { unfold failure. now destruct (read_pdf_fails fs p e' He) as (evs & -> & _). }
      congruence.
  - intros He. unfold failure.
    now destruct (read_pdf_fails fs p e He) as (evs & -> & _).
Qed.

Lemma window_eq (w1 w2 : MainWindow) :
  files_data w1 = files_data w2 -> text_layout w1 = text_layout w2 -> w1 = w2.
Proof. destruct w1, w2. cbn. now intros -> ->. Qed.

End Outcomes.

(** X4.  Every PDF path of a dropped batch has exactly one outcome, reported
    in the order of the batch: either its entry is appended to [files_data]
    or one critical box with its exception is shown.  The new entries are
    those of the readable files, the critical boxes those of the failing
    ones, and together they are as many as the PDF paths. *)
Theorem every_pdf_has_one_outcome (fs : filesystem) (urls : list string)
  (w : MainWindow) :
  files_data (fst (dropEvent fs urls w))
  = files_data w ++ omap (document fs) (List.filter is_pdf urls)
  /\ criticals (snd (dropEvent fs urls w))
     = failure_box <$> omap (failure fs) (List.filter is_pdf urls)
  /\ length (omap (document fs) (List.filter is_pdf urls))
     + length (omap (failure fs) (List.filter is_pdf urls))
     = length (List.filter is_pdf urls)
  /\ (forall p d, document fs p = Some d <->
        exists texts, well_formed fs p texts /\ d = (p, join_pages texts))
  /\ (forall p e, failure fs p = Some e <-> fails fs p e).
Proof.
  split; [apply dropEvent_files_data|]. split; [|split; [apply one_outcome|split]].
  - destruct (List.filter is_pdf urls) as [|p ps] eqn:Hf.
    + now rewrite (dropEvent_none fs urls w Hf).
    + rewrite dropEvent_some by (rewrite Hf; discriminate). cbn [snd].
      rewrite criticals_app, add_files_criticals, Hf. cbn. now rewrite app_nil_r.
  - intros p d. split; [apply document_Some|].
    intros (texts & Hw & ->). now apply document_well_formed.
  - apply failure_Some.
Qed.

(** X5.  Dropping a batch in two parts, one after the other, leaves the
    window in the same state as dropping it at once. *)
Theorem drop_batches_compose (fs : filesystem) (urls1 urls2 : list string)
  (w : MainWindow) :
  fst (dropEvent fs (urls1 ++ urls2) w)
  = fst (dropEvent fs urls2 (fst (dropEvent fs urls1 w))).
Proof.
  apply window_eq.
  - rewrite !dropEvent_files_data, List.filter_app, omap_app.
    now rewrite app_assoc.
  - rewrite !dropEvent_text_layout, List.filter_app, omap_app, fmap_app.
    now rewrite app_assoc.
Qed.

(** X6.  [clear_all] resets the window: from every window reachable by
    drops, intakes and clears it gives back the initial window, so that
    what is dropped next is stored and displayed as in a fresh session. *)
Theorem clear_all_resets (fs : filesystem) (w : MainWindow)
  (urls : list string) :
  reachable_by any_op fs w ->
  clear_all w = Ok init
  /\ forall w', clear_all w = Ok w' ->
                dropEvent fs urls w' = dropEvent fs urls init.
Proof.
  intros Hr. apply reachable_mirrored in Hr.
  assert (Hc : clear_all w = Ok init).
  { rewrite clear_all_spec. unfold mirrored in Hr.
    now rewrite Hr, spacers_display. }
  split; [exact Hc|]. intros w' Hw'. rewrite Hc in Hw'. now injection Hw' as <-.
Qed.

Lemma clear_all_resets_witness :
  reachable_by any_op sample_fs
    (fst (dropEvent sample_fs ["a.pdf"; "torn.pdf"; "b.pdf"] init))
  /\ clear_all (fst (dropEvent sample_fs ["a.pdf"; "torn.pdf"; "b.pdf"] init))
     = Ok init.
Proof.
  assert (Hr : reachable_by any_op sample_fs
                 (fst (dropEvent sample_fs ["a.pdf"; "torn.pdf"; "b.pdf"] init))).
  { apply reach_step
      with (o := Drop ["a.pdf"; "torn.pdf"; "b.pdf"]) (w := init)
           (evs := snd (dropEvent sample_fs ["a.pdf"; "torn.pdf"; "b.pdf"] init));
      [apply reach_init|exact I|reflexivity]. }
  split; [exact Hr|].
  exact (proj1 (clear_all_resets sample_fs _ [] Hr)).
Defined.

(** ** File objects *)

Section Handles.

Variable fs : filesystem.

Lemma held_app evs1 evs2 n :
  held fs (evs1 ++ evs2) n = held fs evs2 (held fs evs1 n).
Proof. revert n. induction evs1 as [|ev evs1 IH]; intros n; cbn; auto. Qed.

Lemma peak_ge evs n : n <= peak fs evs n.
Proof. destruct evs; cbn; lia. Qed.

Lemma peak_app evs1 evs2 n :
  peak fs (evs1 ++ evs2) n
  = Nat.max (peak fs evs1 n) (peak fs evs2 (held fs evs1 n)).
Proof.
  revert n. induction evs1 as [|ev evs1 IH]; intros n; cbn.
  - pose proof (peak_ge evs2 n). lia.
  - rewrite IH. lia.
Qed.

Lemma closed_app evs1 evs2 : closed (evs1 ++ evs2) = closed evs1 ++ closed evs2.
Proof. apply omap_app. Qed.

(** One intake: the file object, if [open] returned one, is released by
    the end of [add_file], on the normal and on the failing path. *)
Lemma add_file_handles p w n :
  held fs (snd (add_file fs p w)) n = n
  /\ peak fs (snd (add_file fs p w)) n <= S n
  /\ closed (snd (add_file fs p w)) = List.filter (opens fs) [p].
Proof.
  unfold add_file, read_pdf. cbn [List.filter].
  destruct (fs p) as [e|[e|ps]] eqn:Hp.
  - cbn. unfold opens. rewrite Hp. cbn. repeat split; lia.
  - cbn. unfold opens. rewrite Hp. cbn. repeat split; lia.
  - destruct (extract_loop ps EmptyString); cbn; unfold opens; rewrite Hp;
      cbn; repeat split; lia.
Qed.

Lemma add_files_handles ps w n :
  held fs (snd (add_files fs ps w)) n = n
  /\ peak fs (snd (add_files fs ps w)) n <= S n
  /\ closed (snd (add_files fs ps w)) = List.filter (opens fs) ps.
Proof.
  revert w. induction ps as [|p ps IH]; intros w.
  - cbn. repeat split; lia.
  - rewrite add_files_cons. cbn [snd].
    destruct (add_file_handles p w n) as (Hh & Hp & Hc).
    destruct (IH (fst (add_file fs p w))) as (Hh' & Hp' & Hc').
    rewrite held_app, peak_app, closed_app, Hh, Hh', Hc, Hc'.
    repeat split; [lia|].
    change (p :: ps) with ([p] ++ ps). now rewrite List.filter_app.
Qed.

End Handles.

(** X7.  No file object outlives a drop and at most one is open at any
    time: each file that [open] returned is closed exactly once, in the
    order of the batch, also when parsing it or extracting a page raised. *)
Theorem drop_releases_files (fs : filesystem) (urls : list string)
  (w : MainWindow) :
  held fs (snd (dropEvent fs urls w)) 0 = 0
  /\ peak fs (snd (dropEvent fs urls w)) 0 <= 1
  /\ closed (snd (dropEvent fs urls w))
     = List.filter (opens fs) (List.filter is_pdf urls).
Proof.
  destruct (List.filter is_pdf urls) as [|p ps] eqn:Hf.
  - rewrite (dropEvent_none fs urls w Hf). cbn. repeat split; lia.
  - rewrite dropEvent_some by (rewrite Hf; discriminate). cbn [snd]. rewrite Hf.
    destruct (add_files_handles fs (p :: ps) w 0) as (Hh & Hp & Hc).
    split; [|split].
    + now rewrite held_app, Hh.
    + rewrite peak_app, Hh. cbn [held peak handle_step]. lia.
    + rewrite closed_app, Hc. cbn [closed omap list_omap]. apply app_nil_r.
Qed.

(** ** The extension test, letter by letter *)

Section Letters.

Local Open Scope char_scope.

Lemma lower_char_dot c : Str.lower_char c = "." -> c = ".".
Proof.
  destruct c as [[] [] [] [] [] [] [] []]; vm_compute; intros H;
    try discriminate H; reflexivity.
Qed.

Lemma lower_char_p c : Str.lower_char c = "p" -> c = "p" \/ c = "P".
Proof.
  destruct c as [[] [] [] [] [] [] [] []]; vm_compute; intros H;
    try discriminate H; auto.
Qed.

Lemma lower_char_d c : Str.lower_char c = "d" -> c = "d" \/ c = "D".
Proof.
  destruct c as [[] [] [] [] [] [] [] []]; vm_compute; intros H;
    try discriminate H; auto.
Qed.

Lemma lower_char_f c : Str.lower_char c = "f" -> c = "f" \/ c = "F".
Proof.
  destruct c as [[] [] [] [] [] [] [] []]; vm_compute; intros H;
    try discriminate H; auto.
Qed.

End Letters.

(** X8.  The test used by [dragEnterEvent] and [dropEvent] holds exactly of
    the names whose last four characters are a dot, [p] or [P], [d] or [D],
    [f] or [F]: nothing may follow the extension, and a name shorter than
    four characters never passes. *)
Theorem is_pdf_last_four (p : string) :
  (is_pdf p = true
   <-> exists stem c1 c2 c3,
         p = stem +:+ String "."%char (String c1 (String c2 (String c3 EmptyString)))
         /\ (c1 = "p" \/ c1 = "P")%char
         /\ (c2 = "d" \/ c2 = "D")%char
         /\ (c3 = "f" \/ c3 = "F")%char)
  /\ (String.length p < 4 -> is_pdf p = false).
Proof.
  split.
  - rewrite is_pdf_spec. split.
    + intros (stem & ext & -> & He).
      destruct ext as [|c0 [|c1 [|c2 [|c3 [|c4 ext]]]]]; try discriminate He.
      cbn in He. injection He as H0 H1 H2 H3.
      apply lower_char_dot in H0 as ->.
      exists stem, c1, c2, c3. split; [reflexivity|].
      auto using lower_char_p, lower_char_d, lower_char_f.
    + intros (stem & c1 & c2 & c3 & -> & H1 & H2 & H3).
      eexists stem, _. split; [reflexivity|].
      destruct H1 as [->| ->], H2 as [->| ->], H3 as [->| ->]; reflexivity.
  - intros Hl. unfold is_pdf, Str.endswith. rewrite length_lower.
    apply andb_false_iff. left. apply Nat.leb_gt. exact Hl.
Qed.

(** ** The label of a container *)

Section Labels.

Variable sep : ascii.

Lemma split_nonempty s : Str.split sep s <> [].
Proof.
  destruct s as [|c s]; cbn; [discriminate|].
  destruct (Ascii.eqb c sep); [discriminate|].
  destruct (Str.split sep s); discriminate.
Qed.

Lemma concat_cons2 x y (l : list string) :
  String.concat (String sep EmptyString) (x :: y :: l)
  = x +:+ (String sep EmptyString
           +:+ String.concat (String sep EmptyString) (y :: l)).
Proof. reflexivity. Qed.

(** Joining the pieces with the separator gives the string back. *)
Lemma split_join s :
  String.concat (String sep EmptyString) (Str.split sep s) = s.
Proof.
  induction s as [|c s IH]; [reflexivity|].
  cbn [Str.split]. destruct (Ascii.eqb c sep) eqn:Hc.
  - apply Ascii.eqb_eq in Hc as ->.
    destruct (Str.split sep s) as [|h t] eqn:Hs; [now apply split_nonempty in Hs|].
    rewrite concat_cons2, IH. reflexivity.
  - destruct (Str.split sep s) as [|h t] eqn:Hs; [now apply split_nonempty in Hs|].
    destruct t as [|h' t].
    + cbn in IH. cbn. now rewrite IH.
    + rewrite concat_cons2 in *. rewrite app_cons. now rewrite IH.
Qed.

Lemma split_no_sep s :
  Forall (fun piece => has_char sep piece = false) (Str.split sep s).
Proof.
  induction s as [|c s IH]; [now repeat constructor|].
  cbn [Str.split]. destruct (Ascii.eqb c sep) eqn:Hc.
  - constructor; [reflexivity|exact IH].
  - destruct (Str.split sep s) as [|h t].
    { constructor; [cbn; now rewrite Hc|constructor]. }
    apply Forall_cons in IH as [Hh Ht]. constructor; [|exact Ht].
    cbn. now rewrite Hc, Hh.
Qed.

Lemma concat_last front name :
  String.concat (String sep EmptyString) (front ++ [name])
  = match front with
    | [] => name
    | _ :: _ =>
        String.concat (String sep EmptyString) front
        +:+ (String sep EmptyString +:+ name)
    end.
Proof.
  induction front as [|x front IH]; [reflexivity|].
  cbn [app]. destruct front as [|y front]; [reflexivity|].
  cbn [app] in *. rewrite !concat_cons2, IH.
  destruct front; now rewrite ?concat_cons2, !app_assoc_str.
Qed.

End Labels.

(** X9.  The name shown in a container's label is the part of the path
    after its last slash: it holds no slash, and the path is either that
    name alone (no slash in the path) or a directory part, a slash and the
    name.  A path that ends with a slash gives an empty name. *)
Theorem label_is_last_component (file_path text : string) :
  exists name,
    file_label (make_container file_path text) = "File: " +:+ name
    /\ text_edit (make_container file_path text) = text
    /\ has_char "/"%char name = false
    /\ ((has_char "/"%char file_path = false /\ file_path = name)
        \/ exists dir, file_path = dir +:+ ("/" +:+ name)).
Proof.
  exists (Str.last_item (Str.split "/"%char file_path)).
  split; [reflexivity|]. split; [reflexivity|].
  pose proof (split_nonempty "/"%char file_path) as Hne.
  pose proof (split_join "/"%char file_path) as Hj.
  pose proof (split_no_sep "/"%char file_path) as Hf.
  unfold Str.last_item.
  rewrite (List.app_removelast_last EmptyString Hne) in Hj, Hf.
  set (name := List.last (Str.split "/"%char file_path) EmptyString) in *.
  set (front := List.removelast (Str.split "/"%char file_path)) in *.
  apply Forall_app in Hf as [_ Hn]. apply Forall_cons in Hn as [Hn _].
  split; [exact Hn|].
  rewrite concat_last in Hj. destruct front as [|x front].
  - left. now rewrite <- Hj.
  - right. eexists. symmetry. exact Hj.
Qed.

(** ** The size of the stored text *)

Lemma length_join_pages (texts : list string) :
  String.length (join_pages texts)
  = sum_list_with String.length texts + length texts.
Proof.
  induction texts as [|t texts IH]; [reflexivity|].
  rewrite join_pages_cons, !length_app_str, IH. cbn. lia.
Qed.

Lemma all_empty_replicate (texts : list string) :
  Forall (fun t => t = EmptyString) texts ->
  texts = replicate (length texts) EmptyString.
Proof. induction 1 as [|t texts -> _ IH]; [reflexivity|]. cbn. now f_equal. Qed.

Lemma all_empty_sum (texts : list string) :
  Forall (fun t => t = EmptyString) texts ->
  sum_list_with String.length texts = 0.
Proof. induction 1 as [|t texts -> _ IH]; [reflexivity|]. cbn. exact IH. Qed.

(** X10.  For a readable PDF the stored text is as long as its page texts
    together plus one character per page; it is therefore empty only for a
    PDF without pages, and a PDF whose pages hold no text is stored as one
    line feed per page. *)
Theorem stored_text_size (fs : filesystem) (p : string)
  (texts : list string) (w : MainWindow) :
  well_formed fs p texts ->
  exists text,
    files_data (fst (add_file fs p w)) = files_data w ++ [(p, text)]
    /\ String.length text = sum_list_with String.length texts + length texts
    /\ (text = EmptyString <-> texts = [])
    /\ (Forall (fun t => t = EmptyString) texts ->
        text = join_pages (replicate (length texts) EmptyString)
        /\ String.length text = length texts).
Proof.
  intros Hw. exists (join_pages texts).
  rewrite (add_file_well_formed fs p texts w Hw). split; [reflexivity|].
  split; [apply length_join_pages|]. split; [split|].
  - intros He. apply (f_equal String.length) in He.
    rewrite length_join_pages in He. destruct texts; [reflexivity|].
    cbn in He. lia.
  - now intros ->.
  - intros Hall. split; [now rewrite <- all_empty_replicate|].
    rewrite length_join_pages, all_empty_sum by exact Hall. lia.
Qed.

Lemma stored_text_size_witness :
  well_formed sample_fs "a.pdf" ["alpha"; "beta"]
  /\ exists text,
       files_data (fst (add_file sample_fs "a.pdf" init)) = [("a.pdf", text)]
       /\ String.length text = 11.
Proof.
  split; [reflexivity|].
  destruct (stored_text_size sample_fs "a.pdf" ["alpha"; "beta"] init eq_refl)
    as (text & Hd & Hl & _).
  exists text. split; [exact Hd|exact Hl].
Defined.

(** ** What a drop does not depend on *)

Section Independence.

Variable fs : filesystem.

Lemma add_file_events p w1 w2 :
  snd (add_file fs p w1) = snd (add_file fs p w2).
Proof.
  unfold add_file. now destruct (read_pdf fs p) as [[text|e] evs].
Qed.

Lemma add_files_events ps w1 w2 :
  snd (add_files fs ps w1) = snd (add_files fs ps w2).
Proof.
  revert w1 w2. induction ps as [|p ps IH]; intros w1 w2; [reflexivity|].
  rewrite !add_files_cons. cbn [snd].
  rewrite (add_file_events p w1 w2). f_equal. apply IH.
Qed.

End Independence.

(** X11.  What a drop reads and reports does not depend on what the window
    already holds: a path that is already stored is opened and read again,
    and the files opened, the boxes shown and the entries appended are the
    same from any two windows. *)
Theorem drop_ignores_window_content (fs : filesystem) (urls : list string)
  (w1 w2 : MainWindow) :
  snd (dropEvent fs urls w1) = snd (dropEvent fs urls w2)
  /\ exists new,
       files_data (fst (dropEvent fs urls w1)) = files_data w1 ++ new
       /\ files_data (fst (dropEvent fs urls w2)) = files_data w2 ++ new
       /\ text_layout (fst (dropEvent fs urls w1))
          = text_layout w1 ++ (display <$> new)
       /\ text_layout (fst (dropEvent fs urls w2))
          = text_layout w2 ++ (display <$> new).
Proof.
  split.
  - destruct (List.filter is_pdf urls) as [|p ps] eqn:Hf.
    + now rewrite !(dropEvent_none fs urls _ Hf).
    + rewrite !dropEvent_some by (rewrite Hf; discriminate). cbn [snd].
      now rewrite (add_files_events fs _ w1 w2).
  - exists (omap (document fs) (List.filter is_pdf urls)).
    now rewrite !dropEvent_files_data, !dropEvent_text_layout.
Qed.
